(** * onnx_connx.backend: the CONNX backend adapter

    A shallow embedding of [onnx_connx/backend.py] (class [Backend]) and the
    properties of its compatibility check, preparation pipeline and
    single-node harness.

    Conventions of the embedding:
    - protobuf messages are records, repeated fields are lists;
    - a Python [dict] is a [gmap];
    - Python [float] is IEEE binary64, here the primitive [float];
    - the collaborators that live outside [backend.py] (the ONNX checker,
      [get_attrset], [get_DataType], [compile_from_model], [BackendRep],
      [shutil], [os], [tempfile], [time], [random]) are parameters of the
      development: every theorem holds for every behaviour they may have;
    - exceptions and the state of the outside world are threaded through a
      small state-and-exception monad that also records the calls made to
      the collaborators. *)

From Stdlib Require Import PrimFloat FloatOps SpecFloat Ascii.
From stdpp Require Import gmap strings pretty list fin_maps.

Local Open Scope Z_scope.

(** ** Data model: the protobuf messages the backend reads and writes *)

(** [onnx.OperatorSetIdProto] *)
Record OperatorSetIdProto := mkOpset {
  domain : string;
  version : Z
}.

(** [onnx.NodeProto]: the fields the backend looks at. *)
Record NodeProto := mkNode {
  node_name : string;
  op_type : string;
  node_input : list string;
  node_output : list string
}.

(** [onnx.ValueInfoProto] restricted to tensor types, as built by
    [onnx.helper.make_tensor_value_info (name, elem_type, shape)]:
    [vi_shape] lists the [dim_value] of every dimension. *)
Record ValueInfoProto := mkValueInfo {
  vi_name : string;
  vi_elem_type : Z;
  vi_shape : list Z
}.

(** [onnx.GraphProto] *)
Record GraphProto := mkGraph {
  graph_name : string;
  node : list NodeProto;
  input : list ValueInfoProto;
  output : list ValueInfoProto
}.

(** [onnx.ModelProto] *)
Record ModelProto := mkModel {
  ir_version : Z;
  opset_import : list OperatorSetIdProto;
  graph : GraphProto
}.

(** A [numpy.ndarray]: element type name, shape and raw payload. *)
Record ndarray := mkArray {
  dtype : string;
  shape : list Z;
  payload : list Z
}.

Global Instance OperatorSetIdProto_eq_dec : EqDecision OperatorSetIdProto.
Proof. solve_decision. Defined.
Global Instance NodeProto_eq_dec : EqDecision NodeProto.
Proof. solve_decision. Defined.
Global Instance ValueInfoProto_eq_dec : EqDecision ValueInfoProto.
Proof. solve_decision. Defined.
Global Instance GraphProto_eq_dec : EqDecision GraphProto.
Proof. solve_decision. Defined.
Global Instance ModelProto_eq_dec : EqDecision ModelProto.
Proof. solve_decision. Defined.

(** [onnx.helper.make_tensor_value_info] *)
Definition make_tensor_value_info (name : string) (elem_type : Z)
    (shape : list Z) : ValueInfoProto :=
  mkValueInfo name elem_type shape.

(** [onnx.TensorProto.DataType.FLOAT] *)
Definition FLOAT : Z := 1.

(** [_CONNX_PATHS = ['onnx_connx/connx', './connx', 'connx']] *)
Definition _CONNX_PATHS : list string :=
  ["onnx_connx/connx"; "./connx"; "connx"].

(** ** Backend.supports_device *)

(** [return device in ['CPU', 'cpu']] *)
Definition supports_device (device : string) : bool :=
  bool_decide (device ∈ ["CPU"; "cpu"]).

(** ** Backend.is_compatible *)

Section Compatibility.
(** The value stored for a supported operator in the table that
    [get_attrset] returns; [None] in the table is Python's [None], the
    marker of an operator without implementation. *)
Variable AttrSet : Type.

(** [opset.get_attrset], from a module outside [backend.py]: maps the list
    of [{'domain': .., 'version': ..}] dictionaries to the support table
    and the resolved version. *)
Variable get_attrset :
  list (string * Z) -> gmap string (option AttrSet) * Z.

(** Lines 31-34: one spec per opset import, in order. *)
Definition specs_of (model : ModelProto) : list (string * Z) :=
  (λ o, (domain o, version o)) <$> opset_import model.

(** The test of line 39:
    [op_type not in attrset or attrset[op_type] is None]. *)
Definition unsupported (attrset : gmap string (option AttrSet))
    (n : NodeProto) : bool :=
  match attrset !! op_type n with
  | None => true
  | Some None => true
  | Some (Some _) => false
  end.

(** Lines 38-43: the loop over [model.graph.node] with its early
    [return False]. *)
Fixpoint check_nodes (attrset : gmap string (option AttrSet))
    (nodes : list NodeProto) : bool :=
  match nodes with
  | [] => true
  | n :: rest => if unsupported attrset n then false
                 else check_nodes attrset rest
  end.

Definition is_compatible (model : ModelProto) (device : string)
    (kwargs : gmap string string) : bool :=
  let '(attrset, attrver) := get_attrset (specs_of model) in
  check_nodes attrset (node (graph model)).

Lemma check_nodes_false attrset nodes :
  check_nodes attrset nodes = false ↔
  ∃ n, n ∈ nodes ∧ unsupported attrset n = true.
Proof.
  induction nodes as [|n rest IH]; simpl.
  - split; [done|]. intros (n & Hn & _). by apply elem_of_nil in Hn.
  - destruct (unsupported attrset n) eqn:Hu.
    + split; [|done]. intros _. exists n. split; [left|done].
    + rewrite IH. split.
      * intros (k & Hk & Hku). exists k. split; [by right|done].
      * intros (k & Hk & Hku). apply elem_of_cons in Hk as [->|Hk].
        -- congruence.
        -- by exists k.
Qed.

Lemma unsupported_spec attrset n :
  unsupported attrset n = true ↔
  attrset !! op_type n = None ∨ attrset !! op_type n = Some None.
Proof.
  unfold unsupported.
  destruct (attrset !! op_type n) as [[a|]|]; intuition congruence.
Qed.

(** C1. The support table is the one that [get_attrset] returns for the
    (domain, version) pairs of the model's opset imports, one pair per
    import and in their order. [is_compatible] returns [false] exactly when
    some node of the graph has an operator type that this table does not
    list, or lists with the marker [None]; in every other case it returns
    [true], in particular for a graph without nodes. *)
Theorem is_compatible_spec (model : ModelProto) (device : string)
    (kwargs : gmap string string) :
  let declared :=
    (λ o : OperatorSetIdProto, (domain o, version o)) <$>
      opset_import model in
  let attrset := (get_attrset declared).1 in
  let bad := ∃ n, n ∈ node (graph model) ∧
               (attrset !! op_type n = None ∨
                attrset !! op_type n = Some None) in
  (is_compatible model device kwargs = false ↔ bad) ∧
  (is_compatible model device kwargs = true ↔ ¬ bad) ∧
  (node (graph model) = [] → is_compatible model device kwargs = true).
Proof.
  unfold is_compatible, specs_of. cbn zeta.
  destruct (get_attrset _) as [attrset attrver]. simpl.
  assert (Hf : check_nodes attrset (node (graph model)) = false ↔
               ∃ n, n ∈ node (graph model) ∧
                 (attrset !! op_type n = None ∨
                  attrset !! op_type n = Some None)).
  { rewrite check_nodes_false.
    split; intros (n & Hn & Hu); exists n; split; try done;
      by apply unsupported_spec. }
  split; [done|]. split.
  - rewrite <- Hf. destruct (check_nodes _ _); intuition congruence.
  - intros ->. done.
Qed.

(** X11. Compatibility looks at nothing but the opset imports and the
    operator types that occur: if a model is compatible, so is every model
    with the same opset imports whose nodes only use operator types of the
    first one, whatever the order, the number of nodes, the device and the
    options. *)
Theorem is_compatible_subgraph (m m' : ModelProto) device kwargs device'
    kwargs' :
  opset_import m' = opset_import m →
  (∀ n', n' ∈ node (graph m') →
     ∃ n, n ∈ node (graph m) ∧ op_type n = op_type n') →
  is_compatible m device kwargs = true →
  is_compatible m' device' kwargs' = true.
Proof.
  intros Hops Hsub. unfold is_compatible, specs_of. rewrite Hops.
  destruct (get_attrset _) as [attrset attrver].
  intros Hm. apply not_false_iff_true. intros Hm'.
  apply check_nodes_false in Hm' as (n' & Hn' & Hu').
  destruct (Hsub n' Hn') as (n & Hn & Hty).
  assert (check_nodes attrset (node (graph m)) = false); [|congruence].
  apply check_nodes_false. exists n. split; [done|].
  unfold unsupported in *. by rewrite Hty.
Qed.
End Compatibility.

(** C10. [supports_device] accepts the two spellings ['CPU'] and ['cpu'] and
    nothing else. *)
Theorem supports_device_spec (device : string) :
  supports_device device = true ↔ device = "CPU" ∨ device = "cpu".
Proof.
  unfold supports_device. rewrite bool_decide_eq_true.
  rewrite !elem_of_cons, elem_of_nil. intuition congruence.
Qed.

(** ** Exceptions, the outside world and the monad of backend actions *)

(** The exceptions that can leave [backend.py]: the three that the
    interpreter or the module itself raises, and whatever a collaborator
    raises ([ExternalError], with the class name and the message). *)
Inductive Exn :=
  | UnboundLocalError (var : string)
  | TypeError (msg : string)
  | Exception (msg : string)
  | ExternalError (cls msg : string).

Global Instance Exn_eq_dec : EqDecision Exn.
Proof. solve_decision. Defined.

(** Modelled from the spec: the class [BackendRep] is defined outside
    [backend.py]. Its constructor
    [BackendRep(connx_path, model_path, delete_path=False)] binds the runtime
    path, the artifact directory and the flag that says whether the handle
    owns the directory and removes it; a handle built without the flag does
    not own the directory. *)
Record BackendRep := mkBackendRep {
  connx_path : string;
  model_path : string;
  delete_path : bool
}.

(** The calls made to the collaborators, in the order they are made. *)
Inductive Event :=
  | EvCheckModel (m : ModelProto)
  | EvWhich (cmd : string)
  | EvMakedirs (p : string)
  | EvGetTempDir
  | EvTime
  | EvRandom
  | EvCompile (m : ModelProto) (p : string)
  | EvRun (rep : BackendRep) (inputs : list ndarray).

(** The commands given to [shutil.which], the directories asked of
    [os.makedirs] and the (model, directory) pairs given to the compiler, in
    the order of the calls. *)
Fixpoint which_calls (log : list Event) : list string :=
  match log with
  | [] => []
  | EvWhich cmd :: rest => cmd :: which_calls rest
  | _ :: rest => which_calls rest
  end.
Fixpoint makedirs_calls (log : list Event) : list string :=
  match log with
  | [] => []
  | EvMakedirs p :: rest => p :: makedirs_calls rest
  | _ :: rest => makedirs_calls rest
  end.
Fixpoint compile_calls (log : list Event) : list (ModelProto * string) :=
  match log with
  | [] => []
  | EvCompile m p :: rest => (m, p) :: compile_calls rest
  | _ :: rest => compile_calls rest
  end.

Lemma which_calls_app l1 l2 :
  which_calls (l1 ++ l2) = which_calls l1 ++ which_calls l2.
Proof.
  induction l1 as [|[] l1 IH]; simpl; [done|..]; by rewrite ?IH.
Qed.
Lemma makedirs_calls_app l1 l2 :
  makedirs_calls (l1 ++ l2) = makedirs_calls l1 ++ makedirs_calls l2.
Proof.
  induction l1 as [|[] l1 IH]; simpl; [done|..]; by rewrite ?IH.
Qed.
Lemma compile_calls_app l1 l2 :
  compile_calls (l1 ++ l2) = compile_calls l1 ++ compile_calls l2.
Proof.
  induction l1 as [|[] l1 IH]; simpl; [done|..]; by rewrite ?IH.
Qed.
Lemma which_calls_which cmds : which_calls (EvWhich <$> cmds) = cmds.
Proof. induction cmds as [|c cmds IH]; csimpl; [done|]. by rewrite IH. Qed.
Lemma makedirs_calls_which cmds : makedirs_calls (EvWhich <$> cmds) = [].
Proof. induction cmds as [|c cmds IH]; csimpl; done. Qed.
Lemma compile_calls_which cmds : compile_calls (EvWhich <$> cmds) = [].
Proof. induction cmds as [|c cmds IH]; csimpl; done. Qed.

(** A Python call either returns a value or raises. *)
Inductive Result (A : Type) :=
  | Ok (a : A)
  | Raise (e : Exn).
Arguments Ok {A} a.
Arguments Raise {A} e.

Section World.
(** The state of everything outside the interpreter: file system, clock,
    random generator, search path. *)
Variable OS : Type.

(** The state a backend call runs in: the [ModelProto] object bound to the
    parameter [model] (the callee mutates the caller's object), the outside
    world, and the calls made so far. *)
Record State := mkState {
  st_model : ModelProto;
  st_os : OS;
  st_log : list Event
}.

Definition M (A : Type) : Type := State -> Result A * State.

Definition ret {A} (a : A) : M A := λ s, (Ok a, s).
Definition raise {A} (e : Exn) : M A := λ s, (Raise e, s).
Definition bind {A B} (c : M A) (k : A -> M B) : M B :=
  λ s, match c s with
       | (Ok a, s') => k a s'
       | (Raise e, s') => (Raise e, s')
       end.

Definition emit (ev : Event) : M unit :=
  λ s, (Ok tt, mkState (st_model s) (st_os s) (st_log s ++ [ev])).
Definition get_model : M ModelProto := λ s, (Ok (st_model s), s).
Definition put_model (m : ModelProto) : M unit :=
  λ s, (Ok tt, mkState m (st_os s) (st_log s)).
(** A call into the outside world: it answers and may change the world. *)
Definition os_call {A} (f : OS -> Result A * OS) : M A :=
  λ s, let '(r, os') := f (st_os s) in
       (r, mkState (st_model s) os' (st_log s)).
(** A call that only reads the outside world. *)
Definition os_read {A} (f : OS -> A) : M A := λ s, (Ok (f (st_os s)), s).
End World.

Arguments mkState {OS} _ _ _.
Arguments st_model {OS} _.
Arguments st_os {OS} _.
Arguments st_log {OS} _.
Arguments ret {OS A} _ _.
Arguments raise {OS A} _ _.
Arguments bind {OS A B} _ _ _.
Arguments emit {OS} _ _.
Arguments get_model {OS} _.
Arguments put_model {OS} _ _.
Arguments os_call {OS A} _ _.
Arguments os_read {OS A} _ _.

Notation "'let*' x := c 'in' k" := (bind c (λ x, k))
  (at level 10, x name, c at level 100, k at level 200).
Notation "c >> k" := (bind c (λ _, k))
  (at level 100, k at level 200, right associativity).

(** Reading a local variable that no assignment has reached. *)
Definition read_local {OS A} (name : string) (v : option A) : M OS A :=
  match v with
  | Some a => ret a
  | None => raise (UnboundLocalError name)
  end.

(** [posixpath.join(a, b)] *)
Definition starts_with_sep (s : string) : bool :=
  match s with
  | String c _ => bool_decide (c = "/"%char)
  | EmptyString => false
  end.
Fixpoint ends_with_sep (s : string) : bool :=
  match s with
  | EmptyString => false
  | String c EmptyString => bool_decide (c = "/"%char)
  | String _ rest => ends_with_sep rest
  end.
Definition path_join (a b : string) : string :=
  if starts_with_sep b then b
  else if bool_decide (a = "") || ends_with_sep a then a +:+ b
  else a +:+ "/" +:+ b.

(** ** Backend.prepare, Backend.run_model, Backend.run_node *)

(** The local variables of [prepare] that the search loop assigns. A local is
    unbound ([None]) until an assignment reaches it; [connx_path], once
    bound, holds an optional string. *)
Record Locals := mkLocals {
  l_path : option string;
  l_connx_path : option (option string)
}.

Definition no_locals : Locals := mkLocals None None.

Section Backend.
Variable OS : Type.

(** The collaborators. *)
(** [onnx.checker.check_model]: returns or raises. *)
Variable check_model : ModelProto -> Result unit.
(** [shutil.which]: the resolved path, or [None]. *)
Variable which : string -> OS -> option string.
(** [os.makedirs(p, exist_ok=True)] *)
Variable makedirs : string -> OS -> Result unit * OS.
(** [tempfile.gettempdir()]: the temporary root, or the exception raised
    when no usable directory is found ([FileNotFoundError]). *)
Variable gettempdir : OS -> Result string.
(** [time.time()] and [random.random()] *)
Variable time : OS -> float * OS.
Variable random : OS -> float * OS.
(** The text that an f-string puts for a float. *)
Variable float_str : float -> string.
(** [compiler.compile_from_model(model, path)] *)
Variable compile_from_model :
  ModelProto -> string -> OS -> Result unit * OS.
(** [BackendRep.run(inputs)] *)
Variable backend_run :
  BackendRep -> list ndarray -> OS -> Result (list ndarray) * OS.
(** [get_DataType], from the package's [__init__]: the ONNX element type
    of a numpy dtype, or an exception. *)
Variable get_DataType : string -> Result Z.
(** [onnx.IR_VERSION] and [onnx.defs.onnx_opset_version()] *)
Variable IR_VERSION : Z.
Variable onnx_opset_version : Z.

Abbreviation M := (M OS).

(** The collaborators as actions; each call is recorded. *)
Definition do_check_model (m : ModelProto) : M unit :=
  emit (EvCheckModel m) >>
  match check_model m with
  | Ok _ => ret tt
  | Raise e => raise e
  end.
Definition do_which (cmd : string) : M (option string) :=
  emit (EvWhich cmd) >> os_read (which cmd).
Definition do_makedirs (p : string) : M unit :=
  emit (EvMakedirs p) >> os_call (makedirs p).
Definition do_gettempdir : M string :=
  emit EvGetTempDir >> λ s, (gettempdir (st_os s), s).
Definition do_time : M float :=
  emit EvTime >> os_call (λ os, let '(t, os') := time os in (Ok t, os')).
Definition do_random : M float :=
  emit EvRandom >>
  os_call (λ os, let '(r, os') := random os in (Ok r, os')).
Definition do_compile (m : ModelProto) (p : string) : M unit :=
  emit (EvCompile m p) >> os_call (compile_from_model m p).
Definition do_run (rep : BackendRep) (inputs : list ndarray)
    : M (list ndarray) :=
  emit (EvRun rep inputs) >> os_call (backend_run rep inputs).

(** Lines 54-56: the default opset id. *)
Definition default_opset : OperatorSetIdProto := mkOpset "" 1.

Definition append_opset (o : OperatorSetIdProto) (m : ModelProto)
    : ModelProto :=
  mkModel (ir_version m) (opset_import m ++ [o]) (graph m).

(** Lines 60-63: the search loop. [path] is assigned at every iteration,
    [connx_path] only when [shutil.which] answers, and then the loop is
    left. *)
Fixpoint find_connx (paths : list string) (locals : Locals) : M Locals :=
  match paths with
  | [] => ret locals
  | path :: rest =>
      let locals := mkLocals (Some path) (l_connx_path locals) in
      let* r := do_which path in
      match r with
      | Some _ => ret (mkLocals (l_path locals) (Some (Some path)))
      | None => find_connx rest locals
      end
  end.

(** Lines 45-77. *)
Definition prepare (device : string) (kwargs : gmap string string)
    : M BackendRep :=
  let* model := get_model in
  do_check_model model >>
  (if bool_decide (length (opset_import model) = 0%nat)
   then put_model (append_opset default_opset model)
   else ret tt) >>
  let* locals := find_connx _CONNX_PATHS no_locals in
  let* connx_path := read_local "connx_path" (l_connx_path locals) in
  match connx_path with
  | None =>
      raise (Exception
        "Cannot find connx in paths: ['onnx_connx/connx', './connx', 'connx']")
  | Some connx_path =>
      match kwargs !! "out" with
      | Some out =>
          let model_path := out in
          let* path := read_local "path" (l_path locals) in
          do_makedirs path >>
          let* model := get_model in
          do_compile model model_path >>
          ret (mkBackendRep connx_path model_path false)
      | None =>
          let* tmp := do_gettempdir in
          let* t := do_time in
          let* r := do_random in
          let model_path :=
            path_join tmp ("connx." +:+ float_str (t + r)%float) in
          let* model := get_model in
          do_compile model model_path >>
          ret (mkBackendRep connx_path model_path true)
      end
  end.

(** Lines 79-87. *)
Definition run_model (inputs : list ndarray) (device : string)
    (kwargs : gmap string string) : M (list ndarray) :=
  let* backend := prepare device kwargs in
  do_run backend inputs.

(** Lines 108-118: the loop over [zip(inputs, node.input)]. *)
Fixpoint input_value_infos (pairs : list (ndarray * string))
    : Result (list ValueInfoProto) :=
  match pairs with
  | [] => Ok []
  | (input, name) :: rest =>
      match get_DataType (dtype input) with
      | Raise e => Raise e
      | Ok elem_type =>
          match input_value_infos rest with
          | Raise e => Raise e
          | Ok value_infos =>
              Ok (make_tensor_value_info name elem_type (shape input)
                    :: value_infos)
          end
      end
  end.

(** Lines 120-122: the loop over [node.output]. *)
Definition output_value_infos (names : list string) : list ValueInfoProto :=
  (λ name, make_tensor_value_info name FLOAT [0]) <$> names.

(** Lines 97-122: the model that [run_node] builds around the node. *)
Definition node_model (node : NodeProto) (inputs : list ndarray)
    : Result ModelProto :=
  match input_value_infos (zip inputs (node_input node)) with
  | Raise e => Raise e
  | Ok ins =>
      Ok (mkModel IR_VERSION [mkOpset "" onnx_opset_version]
            (mkGraph
               (node_name node +:+ " test (auto generated by connx backend)")
               [node] ins (output_value_infos (node_output node))))
  end.

(** Lines 89-124. The call of line 124 is
    [cls.run_model(model, inputs, device, *kwargs)]: the keys of [kwargs]
    are passed as further positional arguments, which [run_model] does not
    take. *)
Definition run_node (node : NodeProto) (inputs : list ndarray)
    (device : string) (outputs_info : option (list (string * list Z)))
    (kwargs : gmap string string) : M (list ndarray) :=
  match node_model node inputs with
  | Raise e => raise e
  | Ok model =>
      put_model model >>
      if bool_decide (kwargs = ∅) then run_model inputs device ∅
      else raise (TypeError "run_model() takes from 3 to 4 positional arguments")
  end.

(** *** The search loop *)

Definition first_match (os : OS) (paths pre : list string) (p : string)
    (post : list string) : Prop :=
  paths = pre ++ p :: post ∧
  (∀ q, q ∈ pre → which q os = None) ∧
  is_Some (which p os).

Lemma first_match_cases os paths :
  (∀ q, q ∈ paths → which q os = None) ∨
  (∃ pre p post, first_match os paths pre p post).
Proof.
  induction paths as [|a paths IH].
  - left. intros q Hq. by apply elem_of_nil in Hq.
  - destruct (which a os) as [w|] eqn:Ha.
    + right. exists [], a, paths. repeat split; [|by eexists].
      intros q Hq. by apply elem_of_nil in Hq.
    + destruct IH as [IH|(pre & p & post & -> & Hpre & Hp)].
      * left. intros q [->|Hq]%elem_of_cons; auto.
      * right. exists (a :: pre), p, post. repeat split; [|done].
        intros q [->|Hq]%elem_of_cons; auto.
Qed.

Lemma find_connx_none paths locals s :
  (∀ q, q ∈ paths → which q (st_os s) = None) →
  find_connx paths locals s =
    (Ok (mkLocals (from_option Some (l_path locals) (last paths))
                  (l_connx_path locals)),
     mkState (st_model s) (st_os s) (st_log s ++ (EvWhich <$> paths))).
Proof.
  revert locals s. induction paths as [|a paths IH]; intros locals s Hall.
  - destruct locals, s. simpl. unfold ret. by rewrite app_nil_r.
  - simpl. unfold bind, do_which, bind, emit, os_read. simpl.
    rewrite (Hall a) by left.
    rewrite IH by (simpl; intros q Hq; apply Hall; by right).
    simpl. rewrite <- app_assoc. simpl. f_equal. f_equal. f_equal.
    destruct paths as [|b paths]; [done|].
    change (last (a :: b :: paths)) with (last (b :: paths)).
    destruct (last (b :: paths)) eqn:E; [done|].
    by apply last_None in E.
Qed.

Lemma find_connx_some paths locals s pre p post :
  first_match (st_os s) paths pre p post →
  find_connx paths locals s =
    (Ok (mkLocals (Some p) (Some (Some p))),
     mkState (st_model s) (st_os s)
       (st_log s ++ (EvWhich <$> pre) ++ [EvWhich p])).
Proof.
  intros (-> & Hpre & [w Hw]). revert locals s Hpre Hw.
  induction pre as [|a pre IH]; intros locals s Hpre Hw.
  - simpl. unfold bind, do_which, bind, emit, os_read. simpl.
    by rewrite Hw.
  - simpl. unfold bind, do_which, bind, emit, os_read. simpl.
    rewrite (Hpre a) by left.
    rewrite IH; simpl; [|intros q Hq; apply Hpre; by right|done].
    by rewrite <- app_assoc.
Qed.

(** *** The four ways through [prepare] *)

Local Arguments find_connx : simpl never.

Ltac same_log :=
  repeat (rewrite <- ?app_assoc; simpl); reflexivity.

(** Lines 53-57 as a function of the model. *)
Definition with_default_opset (m : ModelProto) : ModelProto :=
  if bool_decide (length (opset_import m) = 0%nat)
  then append_opset default_opset m else m.

Ltac step_prepare :=
  unfold prepare, do_check_model, do_makedirs, do_compile, do_gettempdir,
    do_time, do_random, read_local, with_default_opset;
  unfold bind, get_model, put_model, emit, ret, raise, os_call, os_read;
  simpl.

Lemma prepare_invalid m os log device kwargs e :
  check_model m = Raise e →
  prepare device kwargs (mkState m os log) =
    (Raise e, mkState m os (log ++ [EvCheckModel m])).
Proof. intros Hc. step_prepare. by rewrite Hc. Qed.

Lemma prepare_not_found m os log device kwargs :
  check_model m = Ok tt →
  (∀ q, q ∈ _CONNX_PATHS → which q os = None) →
  prepare device kwargs (mkState m os log) =
    (Raise (UnboundLocalError "connx_path"),
     mkState (with_default_opset m) os
       (log ++ [EvCheckModel m] ++ (EvWhich <$> _CONNX_PATHS))).
Proof.
  intros Hc Hall. step_prepare. rewrite Hc.
  destruct (bool_decide _); simpl;
    rewrite find_connx_none by done; simpl; same_log.
Qed.

Lemma prepare_out m os log device kwargs out pre p post :
  check_model m = Ok tt →
  first_match os _CONNX_PATHS pre p post →
  kwargs !! "out" = Some out →
  prepare device kwargs (mkState m os log) =
    let m1 := with_default_opset m in
    let log1 :=
      log ++ [EvCheckModel m] ++ (EvWhich <$> pre) ++
        [EvWhich p; EvMakedirs p] in
    match makedirs p os with
    | (Raise e, os1) => (Raise e, mkState m1 os1 log1)
    | (Ok _, os1) =>
        match compile_from_model m1 out os1 with
        | (Ok _, os2) =>
            (Ok (mkBackendRep p out false),
             mkState m1 os2 (log1 ++ [EvCompile m1 out]))
        | (Raise e, os2) =>
            (Raise e, mkState m1 os2 (log1 ++ [EvCompile m1 out]))
        end
    end.
Proof.
  intros Hc Hfm Hout. step_prepare. rewrite Hc.
  destruct (bool_decide _); simpl;
    (erewrite find_connx_some by exact Hfm); simpl; rewrite Hout; simpl;
    (destruct (makedirs p os) as [[[]|e] os1]; simpl; [|same_log]);
    (destruct (compile_from_model _ out os1) as [[[]|e] os2]; simpl);
    same_log.
Qed.

(** Line 75: the sum that names the temporary directory, and the path built
    from it, as functions of the outside world at the time of the call. *)
Definition temp_stamp (os : OS) : float :=
  let '(t, os1) := time os in
  let '(r, os2) := random os1 in
  (t + r)%float.

Definition temp_model_path (tmp : string) (os : OS) : string :=
  path_join tmp ("connx." +:+ float_str (temp_stamp os)).

Definition after_clock (os : OS) : OS := (random (time os).2).2.

Lemma prepare_tmp_fail m os log device kwargs pre p post e :
  check_model m = Ok tt →
  first_match os _CONNX_PATHS pre p post →
  kwargs !! "out" = None →
  gettempdir os = Raise e →
  prepare device kwargs (mkState m os log) =
    (Raise e,
     mkState (with_default_opset m) os
       (log ++ [EvCheckModel m] ++ (EvWhich <$> pre) ++
          [EvWhich p; EvGetTempDir])).
Proof.
  intros Hc Hfm Hout Ht. step_prepare. rewrite Hc.
  destruct (bool_decide _); simpl;
    (erewrite find_connx_some by exact Hfm); simpl; rewrite Hout; simpl;
    rewrite Ht; same_log.
Qed.

Lemma prepare_tmp m os log device kwargs pre p post tmp :
  check_model m = Ok tt →
  first_match os _CONNX_PATHS pre p post →
  kwargs !! "out" = None →
  gettempdir os = Ok tmp →
  prepare device kwargs (mkState m os log) =
    let m1 := with_default_opset m in
    let model_path := temp_model_path tmp os in
    let log1 :=
      log ++ [EvCheckModel m] ++ (EvWhich <$> pre) ++
        [EvWhich p; EvGetTempDir; EvTime; EvRandom;
         EvCompile m1 model_path] in
    match compile_from_model m1 model_path (after_clock os) with
    | (Ok _, os2) =>
        (Ok (mkBackendRep p model_path true), mkState m1 os2 log1)
    | (Raise e, os2) => (Raise e, mkState m1 os2 log1)
    end.
Proof.
  intros Hc Hfm Hout Ht. step_prepare. rewrite Hc.
  unfold temp_model_path, temp_stamp, after_clock.
  destruct (bool_decide _); simpl;
    (erewrite find_connx_some by exact Hfm); simpl; rewrite Hout; simpl;
    rewrite Ht; simpl;
    (destruct (time os) as [t os1]; simpl);
    (destruct (random os1) as [r os2]; simpl);
    (destruct (compile_from_model _ _ os2) as [[[]|e] os3]; simpl);
    same_log.
Qed.

Ltac calls :=
  rewrite ?which_calls_app, ?makedirs_calls_app, ?compile_calls_app; simpl;
  rewrite ?which_calls_app, ?makedirs_calls_app, ?compile_calls_app; simpl;
  rewrite ?which_calls_which, ?makedirs_calls_which, ?compile_calls_which;
  simpl; rewrite ?app_nil_r.

Lemma with_default_opset_empty m :
  opset_import m = [] →
  with_default_opset m = mkModel (ir_version m) [mkOpset "" 1] (graph m).
Proof.
  intros He. unfold with_default_opset, append_opset, default_opset.
  by rewrite He.
Qed.

(** *** Properties of [prepare] *)

(** C2 (amended). For a model that passes the checker and has no opset
    import, [prepare] leaves the caller's model with exactly one import, the
    one with the empty domain and version 1, whatever happens afterwards,
    and every call of the compiler receives the model in that state. *)
Theorem prepare_injects_default_opset m os device kwargs :
  check_model m = Ok tt →
  opset_import m = [] →
  let s' := (prepare device kwargs (mkState m os [])).2 in
  let m1 := mkModel (ir_version m) [mkOpset "" 1] (graph m) in
  st_model s' = m1 ∧
  Forall (λ call, call.1 = m1) (compile_calls (st_log s')).
Proof.
  intros Hc He. cbn zeta.
  pose proof (with_default_opset_empty m He) as Hm1.
  destruct (first_match_cases os _CONNX_PATHS)
    as [Hnone|(pre & p & post & Hfm)].
  - rewrite prepare_not_found by done. simpl. by rewrite Hm1.
  - destruct (kwargs !! "out") as [out|] eqn:Hout.
    + rewrite (prepare_out _ _ _ _ _ _ _ _ _ Hc Hfm Hout). cbn zeta.
      rewrite Hm1.
      destruct (makedirs p os) as [[[]|e] os1]; simpl.
      * destruct (compile_from_model _ out os1) as [[[]|e] os2]; simpl;
          (split; [done|]); calls; by repeat constructor.
      * split; [done|]. calls. constructor.
    + destruct (gettempdir os) as [tmp|e] eqn:Ht.
      * rewrite (prepare_tmp _ _ _ _ _ _ _ _ _ Hc Hfm Hout Ht). cbn zeta.
        rewrite Hm1.
        destruct (compile_from_model _ _ _) as [[[]|e] os2]; simpl;
          (split; [done|]); calls; by repeat constructor.
      * rewrite (prepare_tmp_fail _ _ _ _ _ _ _ _ _ Hc Hfm Hout Ht). simpl.
        rewrite Hm1. split; [done|]. calls. constructor.
Qed.

(** C4. When no candidate of [_CONNX_PATHS] resolves, [prepare] raises, and
    it has then neither asked for a directory nor called the compiler, and
    the outside world is as it was. For a model that passes the checker the
    exception is the [UnboundLocalError] of reading [connx_path]. *)
Theorem prepare_runtime_not_found m os device kwargs :
  (∀ q, q ∈ _CONNX_PATHS → which q os = None) →
  ∃ e s', prepare device kwargs (mkState m os []) = (Raise e, s') ∧
    st_os s' = os ∧
    makedirs_calls (st_log s') = [] ∧
    compile_calls (st_log s') = [] ∧
    (check_model m = Ok tt → e = UnboundLocalError "connx_path").
Proof.
  intros Hnone. destruct (check_model m) as [[]|e] eqn:Hc.
  - eexists _, _. split; [by apply prepare_not_found|]. by simpl.
  - exists e. eexists. split; [by apply prepare_invalid|]. by simpl.
Qed.

(** C5. For a model that the checker rejects, [prepare] raises the checker's
    exception and has done nothing else: the model is unchanged, no opset
    import was added, the checker call is the only call made (no runtime
    lookup, no directory, no compilation) and the outside world is as it
    was. *)
Theorem prepare_invalid_model m os device kwargs e :
  check_model m = Raise e →
  prepare device kwargs (mkState m os []) =
    (Raise e, mkState m os [EvCheckModel m]).
Proof. intros Hc. by rewrite (prepare_invalid _ _ _ _ _ e). Qed.

(** C8. The search loop asks [shutil.which] about the candidates of
    [_CONNX_PATHS] in order and stops at the first one that resolves: that
    candidate becomes [connx_path], the candidates before it are the only
    others consulted, and those after it are never consulted, neither by the
    loop nor by the rest of [prepare]. *)
Theorem runtime_first_match_wins m os device kwargs pre p post :
  _CONNX_PATHS = pre ++ p :: post →
  (∀ q, q ∈ pre → which q os = None) →
  is_Some (which p os) →
  find_connx _CONNX_PATHS no_locals (mkState m os []) =
    (Ok (mkLocals (Some p) (Some (Some p))),
     mkState m os (EvWhich <$> pre ++ [p])) ∧
  (check_model m = Ok tt →
   let '(r, s') := prepare device kwargs (mkState m os []) in
   which_calls (st_log s') = pre ++ [p] ∧
   ∀ rep, r = Ok rep → connx_path rep = p).
Proof.
  intros Hsplit Hpre Hp.
  assert (Hfm : first_match os _CONNX_PATHS pre p post) by done.
  split.
  - rewrite (find_connx_some _ _ (mkState m os []) _ _ _ Hfm). simpl.
    by rewrite fmap_app.
  - intros Hc. destruct (kwargs !! "out") as [out|] eqn:Hout.
    + rewrite (prepare_out _ _ _ _ _ _ _ _ _ Hc Hfm Hout). cbn zeta.
      destruct (makedirs p os) as [[[]|e] os1]; simpl.
      * destruct (compile_from_model _ out os1) as [[[]|e] os2]; simpl;
          (split; [by calls|]); intros rep [= <-]; done.
      * split; [by calls|]. intros rep [=].
    + destruct (gettempdir os) as [tmp|e] eqn:Ht.
      * rewrite (prepare_tmp _ _ _ _ _ _ _ _ _ Hc Hfm Hout Ht). cbn zeta.
        destruct (compile_from_model _ _ _) as [[[]|e] os2]; simpl;
          (split; [by calls|]); intros rep [= <-]; done.
      * rewrite (prepare_tmp_fail _ _ _ _ _ _ _ _ _ Hc Hfm Hout Ht). simpl.
        split; [by calls|]. intros rep [=].
Qed.

(** Whatever the outside world does, a directory that [prepare] asks
    [os.makedirs] for is one of the runtime candidates: line 70 passes the
    loop variable [path], not [model_path]. *)
Lemma prepare_makedirs_candidate m os device kwargs :
  Forall (λ d, d ∈ _CONNX_PATHS)
    (makedirs_calls (st_log (prepare device kwargs (mkState m os [])).2)).
Proof.
  destruct (check_model m) as [[]|e] eqn:Hc;
    [|rewrite (prepare_invalid _ _ _ _ _ e) by done; simpl; constructor].
  destruct (first_match_cases os _CONNX_PATHS)
    as [Hnone|(pre & p & post & Hfm)].
  { rewrite prepare_not_found by done. simpl. constructor. }
  assert (Hin : p ∈ _CONNX_PATHS).
  { destruct Hfm as (-> & _). apply elem_of_app. right. left. }
  destruct (kwargs !! "out") as [out|] eqn:Hout.
  - rewrite (prepare_out _ _ _ _ _ _ _ _ _ Hc Hfm Hout). cbn zeta.
    destruct (makedirs p os) as [[[]|e] os1]; simpl.
    + destruct (compile_from_model _ out os1) as [[[]|e] os2]; simpl;
        calls; by apply Forall_singleton.
    + calls. by apply Forall_singleton.
  - destruct (gettempdir os) as [tmp|e] eqn:Ht.
    + rewrite (prepare_tmp _ _ _ _ _ _ _ _ _ Hc Hfm Hout Ht). cbn zeta.
      destruct (compile_from_model _ _ _) as [[[]|e] os2]; simpl;
        calls; constructor.
    + rewrite (prepare_tmp_fail _ _ _ _ _ _ _ _ _ Hc Hfm Hout Ht). simpl.
      calls. constructor.
Qed.

(** *** The temporary directory *)

Lemma path_join_connx_inj tmp x y :
  path_join tmp ("connx." +:+ x) = path_join tmp ("connx." +:+ y) → x = y.
Proof.
  unfold path_join. simpl.
  destruct (bool_decide (tmp = "") || ends_with_sep tmp); intros H.
  - apply (inj (String.app tmp)) in H. by simplify_eq.
  - apply (inj (String.app tmp)) in H. by simplify_eq.
Qed.

(** A call of [prepare] that gets as far as naming a temporary directory:
    the model passes the checker, a runtime candidate resolves, no [out]
    was given and [tempfile.gettempdir()] returns. *)
Definition names_temp_dir (m : ModelProto) (os : OS)
    (kwargs : gmap string string) : Prop :=
  check_model m = Ok tt ∧
  (∃ q, q ∈ _CONNX_PATHS ∧ is_Some (which q os)) ∧
  kwargs !! "out" = None ∧
  ∃ tmp, gettempdir os = Ok tmp.

Lemma names_temp_dir_compile m os device kwargs tmp :
  names_temp_dir m os kwargs →
  gettempdir os = Ok tmp →
  let '(r, s') := prepare device kwargs (mkState m os []) in
  compile_calls (st_log s') =
    [(with_default_opset m, temp_model_path tmp os)] ∧
  makedirs_calls (st_log s') = [] ∧
  ∀ rep, r = Ok rep →
    model_path rep = temp_model_path tmp os ∧ delete_path rep = true.
Proof.
  intros (Hc & (q & Hq & Hsome) & Hout & _) Ht.
  destruct (first_match_cases os _CONNX_PATHS)
    as [Hnone|(pre & p & post & Hfm)].
  { rewrite (Hnone q Hq) in Hsome. by destruct Hsome. }
  rewrite (prepare_tmp _ _ _ _ _ _ _ _ _ Hc Hfm Hout Ht). cbn zeta.
  destruct (compile_from_model _ _ _) as [[[]|e] os2]; simpl;
    (split; [by calls|]); (split; [by calls|]); intros rep [= <-]; done.
Qed.

(** C7 (amended). Two calls of [prepare] without [out] that get as far as
    naming a temporary directory, under the same temporary root, hand the
    compiler two different directories exactly when the texts of their two
    sums [time.time() + random.random()] differ; two calls whose sums are
    equal are given the same directory. *)
Theorem temp_dirs_distinct_iff m1 m2 os1 os2 dev1 dev2 kw1 kw2 :
  names_temp_dir m1 os1 kw1 →
  names_temp_dir m2 os2 kw2 →
  gettempdir os1 = gettempdir os2 →
  ∃ dir1 dir2,
    compile_calls (st_log (prepare dev1 kw1 (mkState m1 os1 [])).2)
      = [(with_default_opset m1, dir1)] ∧
    compile_calls (st_log (prepare dev2 kw2 (mkState m2 os2 [])).2)
      = [(with_default_opset m2, dir2)] ∧
    (dir1 ≠ dir2 ↔
     float_str (temp_stamp os1) ≠ float_str (temp_stamp os2)) ∧
    (temp_stamp os1 = temp_stamp os2 → dir1 = dir2).
Proof.
  intros H1 H2 Htmp.
  destruct H1 as (Hc1 & Hq1 & Hout1 & tmp & Ht1).
  assert (Ht2 : gettempdir os2 = Ok tmp) by congruence.
  pose proof (names_temp_dir_compile m1 os1 dev1 kw1 tmp
                (conj Hc1 (conj Hq1 (conj Hout1 (ex_intro _ tmp Ht1)))) Ht1)
    as P1.
  pose proof (names_temp_dir_compile m2 os2 dev2 kw2 tmp H2 Ht2) as P2.
  destruct (prepare dev1 kw1 _) as [r1 s1].
  destruct (prepare dev2 kw2 _) as [r2 s2].
  destruct P1 as (P1 & _). destruct P2 as (P2 & _). simpl.
  exists (temp_model_path tmp os1), (temp_model_path tmp os2).
  split; [done|]. split; [done|].
  unfold temp_model_path. split.
  - split.
    + intros Hne Heq. apply Hne. by rewrite Heq.
    + intros Hne Heq. apply Hne. by apply path_join_connx_inj in Heq.
  - by intros ->.
Qed.

(** *** Properties of [run_node] *)

Lemma input_value_infos_spec inputs names :
  length names = length inputs →
  match input_value_infos (zip inputs names) with
  | Ok infos =>
      length infos = length inputs ∧
      ∀ i x name, inputs !! i = Some x → names !! i = Some name →
        ∃ elem_type, get_DataType (dtype x) = Ok elem_type ∧
          infos !! i = Some (mkValueInfo name elem_type (shape x))
  | Raise e => ∃ x, x ∈ inputs ∧ get_DataType (dtype x) = Raise e
  end.
Proof.
  revert names. induction inputs as [|x inputs IH]; intros names Hlen.
  - simpl. split; [done|]. intros i x name Hx. by destruct i.
  - destruct names as [|name names]; [done|]. simpl in Hlen.
    specialize (IH names ltac:(lia)). simpl.
    destruct (get_DataType (dtype x)) as [elem_type|e] eqn:Hty.
    + destruct (input_value_infos (zip inputs names)) as [infos|e].
      * destruct IH as (Hl & IH). split; [simpl; lia|].
        intros [|i] y nm Hy Hnm; simpl in *.
        -- simplify_eq. by exists elem_type.
        -- by apply IH.
      * destruct IH as (y & Hy & He). exists y. split; [by right|done].
    + exists x. split; [left|done].
Qed.

(** C6. When the node has as many input slots as there are input arrays,
    the model that [run_node] builds and passes on has the given node as its
    only node, one opset import with the empty domain and the version
    [onnx.defs.onnx_opset_version()], one input value-info per input array,
    in order, made of the node's input name at that position and the
    array's element type and shape, and one output value-info per output
    name of the node, in order, with element type [FLOAT] and shape [[0]].
    The only other outcome is the exception that [get_DataType] raised for
    one of the arrays. *)
Theorem run_node_model_spec (nd : NodeProto) inputs :
  length (node_input nd) = length inputs →
  match node_model nd inputs with
  | Ok model =>
      node (graph model) = [nd] ∧
      opset_import model = [mkOpset "" onnx_opset_version] ∧
      length (input (graph model)) = length inputs ∧
      (∀ i x name,
         inputs !! i = Some x → node_input nd !! i = Some name →
         ∃ elem_type, get_DataType (dtype x) = Ok elem_type ∧
           input (graph model) !! i =
             Some (mkValueInfo name elem_type (shape x))) ∧
      length (output (graph model)) = length (node_output nd) ∧
      (∀ i name, node_output nd !! i = Some name →
         output (graph model) !! i = Some (mkValueInfo name FLOAT [0])) ∧
      (∀ device outputs_info s,
         run_node nd inputs device outputs_info ∅ s =
         run_model inputs device ∅ (mkState model (st_os s) (st_log s)))
  | Raise e => ∃ x, x ∈ inputs ∧ get_DataType (dtype x) = Raise e
  end.
Proof.
  intros Hlen. unfold run_node, node_model.
  pose proof (input_value_infos_spec inputs (node_input nd) Hlen) as Hin.
  destruct (input_value_infos _) as [infos|e]; [|done].
  destruct Hin as (Hl & Hin). simpl.
  repeat split; try done.
  - unfold output_value_infos. by rewrite length_fmap.
  - intros i name Hname. unfold output_value_infos.
    by rewrite list_lookup_fmap, Hname.
Qed.

(** With keyword arguments, line 124 passes their names as positional
    arguments and [run_model] refuses the call; [prepare] is not reached. *)
Lemma run_node_rejects_kwargs (nd : NodeProto) inputs device outputs_info
    kwargs s model :
  node_model nd inputs = Ok model →
  kwargs ≠ ∅ →
  run_node nd inputs device outputs_info kwargs s =
    (Raise (TypeError "run_model() takes from 3 to 4 positional arguments"),
     mkState model (st_os s) (st_log s)).
Proof.
  intros Hm Hk. unfold run_node. rewrite Hm.
  unfold bind, put_model. simpl. by rewrite bool_decide_eq_false_2.
Qed.

(** C9. [run_node] never looks at [outputs_info]: with any two values of
    it, the result, the model built, the calls made and the outside world
    afterwards are the same. *)
Theorem run_node_ignores_outputs_info node inputs device kwargs s
    (outputs_info1 outputs_info2 : option (list (string * list Z))) :
  run_node node inputs device outputs_info1 kwargs s =
  run_node node inputs device outputs_info2 kwargs s.
Proof. reflexivity. Qed.
(** ** Further properties of the backend *)

(** The calls of [BackendRep.run], in order. *)
Fixpoint run_calls (log : list Event) : list (BackendRep * list ndarray) :=
  match log with
  | [] => []
  | EvRun rep inputs :: rest => (rep, inputs) :: run_calls rest
  | _ :: rest => run_calls rest
  end.

Lemma run_calls_app l1 l2 :
  run_calls (l1 ++ l2) = run_calls l1 ++ run_calls l2.
Proof.
  induction l1 as [|[] l1 IH]; simpl; [done|..]; by rewrite ?IH.
Qed.
Lemma run_calls_which cmds : run_calls (EvWhich <$> cmds) = [].
Proof. induction cmds as [|c cmds IH]; csimpl; done. Qed.

(** Every call of [prepare] goes one of five ways. *)
Lemma prepare_cases m os log device kwargs :
  (∃ e, check_model m = Raise e ∧
     prepare device kwargs (mkState m os log) =
       (Raise e, mkState m os (log ++ [EvCheckModel m]))) ∨
  (check_model m = Ok tt ∧
   (∀ q, q ∈ _CONNX_PATHS → which q os = None) ∧
   prepare device kwargs (mkState m os log) =
     (Raise (UnboundLocalError "connx_path"),
      mkState (with_default_opset m) os
        (log ++ [EvCheckModel m] ++ (EvWhich <$> _CONNX_PATHS)))) ∨
  (∃ pre p post out,
     check_model m = Ok tt ∧
     first_match os _CONNX_PATHS pre p post ∧
     kwargs !! "out" = Some out ∧
     prepare device kwargs (mkState m os log) =
       let m1 := with_default_opset m in
       let log1 :=
         log ++ [EvCheckModel m] ++ (EvWhich <$> pre) ++
           [EvWhich p; EvMakedirs p] in
       match makedirs p os with
       | (Raise e, os1) => (Raise e, mkState m1 os1 log1)
       | (Ok _, os1) =>
           match compile_from_model m1 out os1 with
           | (Ok _, os2) =>
               (Ok (mkBackendRep p out false),
                mkState m1 os2 (log1 ++ [EvCompile m1 out]))
           | (Raise e, os2) =>
               (Raise e, mkState m1 os2 (log1 ++ [EvCompile m1 out]))
           end
       end) ∨
  (∃ pre p post tmp,
     check_model m = Ok tt ∧
     first_match os _CONNX_PATHS pre p post ∧
     kwargs !! "out" = None ∧
     gettempdir os = Ok tmp ∧
     prepare device kwargs (mkState m os log) =
       let m1 := with_default_opset m in
       let model_path := temp_model_path tmp os in
       let log1 :=
         log ++ [EvCheckModel m] ++ (EvWhich <$> pre) ++
           [EvWhich p; EvGetTempDir; EvTime; EvRandom;
            EvCompile m1 model_path] in
       match compile_from_model m1 model_path (after_clock os) with
       | (Ok _, os2) =>
           (Ok (mkBackendRep p model_path true), mkState m1 os2 log1)
       | (Raise e, os2) => (Raise e, mkState m1 os2 log1)
       end) ∨
  (∃ pre p post e,
     check_model m = Ok tt ∧
     first_match os _CONNX_PATHS pre p post ∧
     kwargs !! "out" = None ∧
     gettempdir os = Raise e ∧
     prepare device kwargs (mkState m os log) =
       (Raise e,
        mkState (with_default_opset m) os
          (log ++ [EvCheckModel m] ++ (EvWhich <$> pre) ++
             [EvWhich p; EvGetTempDir]))).
Proof.
  destruct (check_model m) as [[]|e] eqn:Hc.
  - destruct (first_match_cases os _CONNX_PATHS)
      as [Hnone|(pre & p & post & Hfm)].
    + right. left. split; [done|]. split; [done|].
      by apply prepare_not_found.
    + destruct (kwargs !! "out") as [out|] eqn:Hout.
      * right. right. left. exists pre, p, post, out.
        split; [done|]. split; [done|]. split; [done|].
        by apply (prepare_out _ _ _ _ _ _ _ _ post).
      * destruct (gettempdir os) as [tmp|e] eqn:Ht.
        -- right. right. right. left. exists pre, p, post, tmp.
           split; [done|]. split; [done|]. split; [done|]. split; [done|].
           by apply (prepare_tmp _ _ _ _ _ _ _ post).
        -- right. right. right. right. exists pre, p, post, e.
           split; [done|]. split; [done|]. split; [done|]. split; [done|].
           by apply (prepare_tmp_fail _ _ _ _ _ _ _ post).
  - left. exists e. split; [done|]. by apply prepare_invalid.
Qed.

Ltac by_prepare_cases m os log device kwargs :=
  let e := fresh "e" in let pre := fresh "pre" in let p := fresh "p" in
  let post := fresh "post" in let out := fresh "out" in
  let Hc := fresh "Hc" in let Hfm := fresh "Hfm" in
  let Hout := fresh "Hout" in let Heq := fresh "Heq" in
  let Hnone := fresh "Hnone" in let tmp := fresh "tmp" in
  let Ht := fresh "Ht" in
  destruct (prepare_cases m os log device kwargs)
    as [(e & Hc & Heq)
       |[(Hc & Hnone & Heq)
        |[(pre & p & post & out & Hc & Hfm & Hout & Heq)
         |[(pre & p & post & tmp & Hc & Hfm & Hout & Ht & Heq)
          |(pre & p & post & e & Hc & Hfm & Hout & Ht & Heq)]]]];
  rewrite Heq; clear Heq; cbn zeta;
  [ |
  | destruct (makedirs p os) as [[[]|?] ?] eqn:?;
    [destruct (compile_from_model _ out _) as [[[]|?] ?] eqn:?|]
  | destruct (compile_from_model _ _ _) as [[[]|?] ?] eqn:?
  | ];
  simpl.

Lemma with_default_opset_keeps m :
  opset_import m ≠ [] → with_default_opset m = m.
Proof.
  intros Hne. unfold with_default_opset.
  rewrite bool_decide_eq_false_2; [done|].
  by destruct (opset_import m).
Qed.

Lemma with_default_opset_nonempty m : opset_import (with_default_opset m) ≠ [].
Proof.
  unfold with_default_opset. case_bool_decide as Hlen; simpl.
  - by destruct (opset_import m).
  - by destruct (opset_import m).
Qed.

(** The model after a call of [prepare], and the head of its calls. *)
Lemma prepare_final_model m os log device kwargs :
  st_model (prepare device kwargs (mkState m os log)).2 =
  match check_model m with
  | Ok _ => with_default_opset m
  | Raise _ => m
  end.
Proof. by_prepare_cases m os log device kwargs; by rewrite Hc. Qed.

Lemma prepare_log_head m os log device kwargs :
  ∃ rest,
    st_log (prepare device kwargs (mkState m os log)).2 =
    log ++ EvCheckModel m :: rest.
Proof.
  by_prepare_cases m os log device kwargs;
    rewrite <- ?app_assoc; simpl; by eexists.
Qed.

(** [prepare] adds no [BackendRep.run] call to those made before, and
    without [out] a handle it returns owns the temporary directory. *)
Lemma prepare_log_runs m os log device kwargs :
  run_calls (st_log (prepare device kwargs (mkState m os log)).2) =
  run_calls log.
Proof.
  by_prepare_cases m os log device kwargs;
    rewrite ?run_calls_app; simpl; rewrite ?run_calls_app; simpl;
    rewrite ?run_calls_which; simpl; by rewrite ?app_nil_r.
Qed.

Lemma prepare_owned_without_out m os log device kwargs :
  kwargs !! "out" = None →
  ∀ rep, (prepare device kwargs (mkState m os log)).1 = Ok rep →
  delete_path rep = true ∧
  ∃ tmp, gettempdir os = Ok tmp ∧ model_path rep = temp_model_path tmp os.
Proof.
  intros Hno rep.
  by_prepare_cases m os log device kwargs; try congruence;
    intros [= <-]; eauto.
Qed.

(** [run_model] is [prepare] followed, on success, by one call of
    [BackendRep.run]. *)
Lemma run_model_eq inputs device kwargs s :
  run_model inputs device kwargs s =
  match prepare device kwargs s with
  | (Ok rep, s1) =>
      let '(r2, os2) := backend_run rep inputs (st_os s1) in
      (r2, mkState (st_model s1) os2 (st_log s1 ++ [EvRun rep inputs]))
  | (Raise e, s1) => (Raise e, s1)
  end.
Proof.
  unfold run_model, bind at 1, do_run, bind, emit, os_call.
  by destruct (prepare device kwargs s) as [[rep|e] s1].
Qed.

(** X1. A model that already imports an opset is never changed by
    [prepare], whether the call returns or raises. *)
Theorem prepare_keeps_declared_opsets m os log device kwargs :
  opset_import m ≠ [] →
  st_model (prepare device kwargs (mkState m os log)).2 = m.
Proof.
  intros Hne. rewrite prepare_final_model.
  rewrite (with_default_opset_keeps m Hne). by destruct (check_model m).
Qed.

(** X2. The change that [prepare] makes to the model is made once: a second
    call on the same model object, in any outside world and with any
    options, leaves the model as the first call left it. *)
Theorem prepare_twice_same_model m os log device kwargs os' log' device'
    kwargs' :
  let m1 := st_model (prepare device kwargs (mkState m os log)).2 in
  st_model (prepare device' kwargs' (mkState m1 os' log')).2 = m1.
Proof.
  cbn zeta. rewrite !prepare_final_model.
  destruct (check_model m) as [[]|e] eqn:Hc; [|by rewrite Hc].
  destruct (check_model (with_default_opset m)); [|done].
  apply with_default_opset_keeps, with_default_opset_nonempty.
Qed.

(** X3. Where an exception of [prepare] comes from. It is the checker's;
    or else the model passed the checker and it is the [UnboundLocalError]
    for [connx_path], no candidate resolving; or else some candidate is the
    first to resolve and, with [out] given, it is the exception that
    [os.makedirs] raised for that candidate or, [os.makedirs] having
    returned, the one the compiler raised for [out]; without [out], it is
    the exception of [tempfile.gettempdir()] or, that call having returned,
    the one the compiler raised for the temporary path. In particular the
    exception of line 66 is never raised by that line. *)
Theorem prepare_raise_origin m os log device kwargs e s' :
  prepare device kwargs (mkState m os log) = (Raise e, s') →
  check_model m = Raise e ∨
  check_model m = Ok tt ∧
  ((e = UnboundLocalError "connx_path" ∧
    ∀ q, q ∈ _CONNX_PATHS → which q os = None) ∨
   ∃ pre p post, first_match os _CONNX_PATHS pre p post ∧
     match kwargs !! "out" with
     | Some out =>
         (makedirs p os).1 = Raise e ∨
         ∃ os1, makedirs p os = (Ok tt, os1) ∧
           (compile_from_model (with_default_opset m) out os1).1 = Raise e
     | None =>
         gettempdir os = Raise e ∨
         ∃ tmp, gettempdir os = Ok tmp ∧
           (compile_from_model (with_default_opset m)
              (temp_model_path tmp os) (after_clock os)).1 = Raise e
     end).
Proof.
  by_prepare_cases m os log device kwargs; intros [= <- <-].
  - by left.
  - right. split; [done|]. by left.
  - right. split; [done|]. right. exists pre, p, post. split; [done|].
    rewrite Hout. right. eexists. split; [done|].
    match goal with
    | H : compile_from_model _ _ _ = _ |- _ => by rewrite H
    end.
  - right. split; [done|]. right. exists pre, p, post. split; [done|].
    rewrite Hout. left.
    match goal with H : makedirs _ _ = _ |- _ => by rewrite H end.
  - right. split; [done|]. right. exists pre, p, post. split; [done|].
    rewrite Hout. right. exists tmp. split; [done|].
    match goal with
    | H : compile_from_model _ _ _ = _ |- _ => by rewrite H
    end.
  - right. split; [done|]. right. exists pre, p, post. split; [done|].
    rewrite Hout. by left.
Qed.
(** X4. What a returned handle is bound to: the model passed the checker,
    the handle's runtime is the first candidate of [_CONNX_PATHS] that
    resolves, its directory is [out] when given and the temporary path
    otherwise, it owns the directory exactly when [out] was not given, and
    the compiler was called once, with the model as [prepare] left it and
    with the handle's directory. *)
Theorem prepare_returns_handle m os device kwargs rep s' :
  prepare device kwargs (mkState m os []) = (Ok rep, s') →
  check_model m = Ok tt ∧
  (∃ pre post, first_match os _CONNX_PATHS pre (connx_path rep) post) ∧
  match kwargs !! "out" with
  | Some out => model_path rep = out
  | None =>
      ∃ tmp, gettempdir os = Ok tmp ∧
        model_path rep = temp_model_path tmp os
  end ∧
  delete_path rep = bool_decide (kwargs !! "out" = None) ∧
  st_model s' = with_default_opset m ∧
  compile_calls (st_log s') = [(with_default_opset m, model_path rep)].
Proof.
  by_prepare_cases m os (@nil Event) device kwargs; intros [= <- <-];
    simpl; rewrite Hout; simpl.
  - split; [done|]. split; [by eexists _, _|]. by calls.
  - split; [done|]. split; [by eexists _, _|]. split; [by eauto|].
    by calls.
Qed.

(** X5. The calls that one [prepare] makes: the checker comes first;
    [shutil.which] is asked about an initial segment of [_CONNX_PATHS], in
    order; [os.makedirs] and the compiler are each called at most once,
    [os.makedirs] never when [out] is absent; and [prepare] never runs the
    model. *)
Theorem prepare_call_discipline m os device kwargs :
  let log := st_log (prepare device kwargs (mkState m os [])).2 in
  (∃ rest, log = EvCheckModel m :: rest) ∧
  which_calls log `prefix_of` _CONNX_PATHS ∧
  (length (makedirs_calls log) ≤ 1)%nat ∧
  (length (compile_calls log) ≤ 1)%nat ∧
  (kwargs !! "out" = None → makedirs_calls log = []) ∧
  run_calls log = [].
Proof.
  cbn zeta.
  assert (Hpre : ∀ pre p post, first_match os _CONNX_PATHS pre p post →
            (pre ++ [p]) `prefix_of` _CONNX_PATHS).
  { intros pre p post (-> & _). exists post. by rewrite <- app_assoc. }
  by_prepare_cases m os (@nil Event) device kwargs;
    (split; [by eexists|]); calls;
    rewrite ?run_calls_app, ?run_calls_which; simpl;
    rewrite ?run_calls_app, ?run_calls_which; simpl;
    try (split; [by eauto using prefix_nil|]);
    repeat split; try done; try lia; try congruence.
Qed.

(** Without [out], [prepare] adds no [os.makedirs] call to those made
    before. *)
Lemma prepare_no_out_no_makedirs m os log device kwargs :
  kwargs !! "out" = None →
  makedirs_calls (st_log (prepare device kwargs (mkState m os log)).2) =
  makedirs_calls log.
Proof.
  intros Hno.
  by_prepare_cases m os log device kwargs; try congruence; by calls.
Qed.

(** X6. [run_model] returns the exception of [prepare] as it is, without
    running anything; when [prepare] returns a handle, [BackendRep.run] is
    called once, on that handle and the caller's inputs, as the last call,
    and its outcome is the outcome of [run_model]. *)
Theorem run_model_runs_prepared_handle inputs device kwargs m os :
  let '(r, s1) := prepare device kwargs (mkState m os []) in
  let '(r2, s2) := run_model inputs device kwargs (mkState m os []) in
  match r with
  | Raise e => r2 = Raise e ∧ s2 = s1 ∧ run_calls (st_log s2) = []
  | Ok rep =>
      (r2, st_os s2) = backend_run rep inputs (st_os s1) ∧
      st_model s2 = st_model s1 ∧
      st_log s2 = st_log s1 ++ [EvRun rep inputs] ∧
      run_calls (st_log s2) = [(rep, inputs)]
  end.
Proof.
  rewrite run_model_eq.
  pose proof (prepare_log_runs m os [] device kwargs) as Hrun.
  destruct (prepare device kwargs _) as [[rep|e] s1]; simpl in *.
  - destruct (backend_run rep inputs (st_os s1)) as [r2 os2]; simpl.
    split; [done|]. split; [done|]. split; [done|].
    by rewrite run_calls_app, Hrun.
  - done.
Qed.
(** Every call of the compiler is given the model as [prepare] left it. *)
Lemma prepare_injects_nothing_else m os device kwargs :
  Forall (λ call, call.1 = with_default_opset m)
    (compile_calls (st_log (prepare device kwargs (mkState m os [])).2)).
Proof.
  by_prepare_cases m os (@nil Event) device kwargs; calls;
    by repeat constructor.
Qed.

(** *** More on [run_node] *)


Lemma input_value_infos_take inputs names :
  input_value_infos (zip inputs names) =
  input_value_infos (zip (take (length names) inputs) names).
Proof. by rewrite zip_with_take_l. Qed.

Lemma input_value_infos_names inputs names infos :
  input_value_infos (zip inputs names) = Ok infos →
  vi_name <$> infos = take (length inputs) names ∧
  vi_shape <$> infos = shape <$> take (length names) inputs.
Proof.
  revert names infos.
  induction inputs as [|x inputs IH]; intros names infos.
  - simpl. intros [= <-]. by rewrite take_nil.
  - destruct names as [|name names]; [by intros [= <-]|]. simpl.
    destruct (get_DataType (dtype x)) as [ty|e]; [|done].
    destruct (input_value_infos (zip inputs names)) as [rest|e] eqn:Hr;
      [|done].
    intros [= <-]. destruct (IH names rest Hr) as (Hn & Hs).
    csimpl. by rewrite Hn, Hs.
Qed.

(** X8. When the numbers of input arrays and of input slots differ,
    [run_node] pairs them off as far as both last: input arrays beyond the
    node's slots play no part in the model built, and the input value-infos
    are named after the first slots, as many as there are arrays. *)
Theorem run_node_model_truncates (nd : NodeProto) inputs :
  node_model nd inputs =
    node_model nd (take (length (node_input nd)) inputs) ∧
  ∀ model, node_model nd inputs = Ok model →
    vi_name <$> input (graph model) =
      take (length inputs) (node_input nd) ∧
    vi_shape <$> input (graph model) =
      shape <$> take (length (node_input nd)) inputs ∧
    length (input (graph model)) =
      (length inputs `min` length (node_input nd))%nat.
Proof.
  split.
  - unfold node_model. by rewrite <- input_value_infos_take.
  - intros model. unfold node_model.
    destruct (input_value_infos _) as [infos|e] eqn:Hi; [|done].
    intros [= <-]. simpl.
    destruct (input_value_infos_names _ _ _ Hi) as (Hn & Hs).
    split; [done|]. split; [done|].
    rewrite <- (length_fmap vi_name), Hn, length_take. lia.
Qed.

(** X9. A [run_node] call without keyword arguments, once the model is
    built: the checker is the first collaborator called and it is given the
    model built; no directory is asked of [os.makedirs]; the compiler, if
    reached, is given the model built, which [prepare] leaves unchanged; and
    [BackendRep.run], if reached, is called once, with the inputs of the
    caller and a handle that owns a temporary directory. *)
Theorem run_node_pipeline (nd : NodeProto) inputs device outputs_info os
    model :
  node_model nd inputs = Ok model →
  ∀ m0,
  let '(r, s') :=
    run_node nd inputs device outputs_info ∅ (mkState m0 os []) in
  (∃ rest, st_log s' = EvCheckModel model :: rest) ∧
  makedirs_calls (st_log s') = [] ∧
  Forall (λ call, call.1 = model) (compile_calls (st_log s')) ∧
  st_model s' = model ∧
  (run_calls (st_log s') = [] ∨
   ∃ rep, run_calls (st_log s') = [(rep, inputs)] ∧
     delete_path rep = true ∧
     ∃ tmp, gettempdir os = Ok tmp ∧
       model_path rep = temp_model_path tmp os) ∧
  (∀ outputs, r = Ok outputs → run_calls (st_log s') ≠ []).
Proof.
  intros Hm m0. unfold run_node. rewrite Hm.
  unfold bind at 1, put_model. simpl.
  rewrite bool_decide_eq_true_2 by done.
  assert (Hne : opset_import model ≠ []).
  { unfold node_model in Hm.
    destruct (input_value_infos _); by simplify_eq. }
  rewrite run_model_eq.
  pose proof (prepare_log_head model os [] device ∅) as (rest & Hlog).
  pose proof (prepare_no_out_no_makedirs model os [] device ∅ eq_refl)
    as Hmk.
  pose proof (prepare_log_runs model os [] device ∅) as Hrun.
  pose proof (prepare_final_model model os [] device ∅) as Hkeep.
  pose proof (prepare_injects_nothing_else model os device ∅) as Hcomp.
  rewrite (with_default_opset_keeps model Hne) in Hcomp, Hkeep.
  pose proof (prepare_owned_without_out model os [] device ∅ eq_refl)
    as Hown.
  destruct (prepare device ∅ _) as [r1 s1]. simpl in *.
  assert (Hmodel : st_model s1 = model) by (by destruct (check_model model)).
  destruct r1 as [rep|e].
  - destruct (Hown rep eq_refl) as (Hdel & Hpath).
    destruct (backend_run rep inputs (st_os s1)) as [r2 os2]. simpl.
    rewrite makedirs_calls_app, compile_calls_app, run_calls_app.
    rewrite Hmk, Hrun. simpl. rewrite app_nil_r.
    split; [rewrite Hlog; by eexists|].
    split; [done|]. split; [done|]. split; [done|]. split; [|done].
    right. by exists rep.
  - rewrite Hrun. split; [by eexists|].
    split; [done|]. split; [done|]. split; [done|].
    split; [by left|]. by intros outputs [=].
Qed.

Lemma input_value_infos_first_failure inputs names e :
  input_value_infos (zip inputs names) = Raise e ↔
  ∃ i x, (i < length names)%nat ∧ inputs !! i = Some x ∧
    get_DataType (dtype x) = Raise e ∧
    ∀ j y, (j < i)%nat → inputs !! j = Some y →
      ∃ elem_type, get_DataType (dtype y) = Ok elem_type.
Proof.
  revert names. induction inputs as [|x inputs IH]; intros names.
  { simpl. split; [done|]. by intros (i & y & _ & ? & _). }
  destruct names as [|name names].
  { simpl. split; [done|]. intros (i & y & ? & _). lia. }
  simpl. destruct (get_DataType (dtype x)) as [ty|e0] eqn:Hx.
  - destruct (input_value_infos (zip inputs names)) as [rest|e1] eqn:Hr.
    + split; [done|]. intros (i & y & Hi & Hy & He & Hbefore).
      destruct i as [|i]; simpl in Hy; [simplify_eq; congruence|].
      assert (Hex : input_value_infos (zip inputs names) = Raise e);
        [|congruence].
      apply IH. exists i, y. split; [lia|]. split; [done|].
      split; [done|]. intros j z Hj Hz. apply (Hbefore (S j) z); [lia|done].
    + split.
      * intros [= <-]. apply IH in Hr as (i & y & Hi & Hy & He & Hbefore).
        exists (S i), y. split; [lia|]. split; [done|]. split; [done|].
        intros [|j] z Hj Hz; simpl in Hz.
        -- simplify_eq. by exists ty.
        -- apply (Hbefore j z); [lia|done].
      * intros (i & y & Hi & Hy & He & Hbefore).
        destruct i as [|i]; simpl in Hy; [simplify_eq; congruence|].
        assert (Hex : input_value_infos (zip inputs names) = Raise e);
          [|congruence].
        apply IH. exists i, y. split; [lia|]. split; [done|].
        split; [done|].
        intros j z Hj Hz. apply (Hbefore (S j) z); [lia|done].
  - split.
    + intros [= <-]. exists 0%nat, x. split; [lia|]. split; [done|].
      split; [done|]. intros j y Hj. lia.
    + intros (i & y & Hi & Hy & He & Hbefore).
      destruct i as [|i]; simpl in Hy; [simplify_eq; congruence|].
      destruct (Hbefore 0%nat x) as (ty & Hty); [lia|done|]. congruence.
Qed.

(** X12. When the model cannot be built, the exception is the one that
    [get_DataType] raised for the first input array it rejects among those
    that have an input slot: every array before it was accepted, and an
    array without a slot is never looked at. *)
Theorem run_node_model_first_failure (nd : NodeProto) inputs e :
  node_model nd inputs = Raise e ↔
  ∃ i x, (i < length (node_input nd))%nat ∧ inputs !! i = Some x ∧
    get_DataType (dtype x) = Raise e ∧
    ∀ j y, (j < i)%nat → inputs !! j = Some y →
      ∃ elem_type, get_DataType (dtype y) = Ok elem_type.
Proof.
  rewrite <- input_value_infos_first_failure. unfold node_model.
  destruct (input_value_infos _) as [infos|e']; split; congruence.
Qed.

(** X13. What [prepare] may change in the model: never the graph nor the IR
    version, and the opset imports only by adding at the end, so that the
    model ends with its old imports first and with at most one import more
    than it had. *)
Theorem prepare_model_frame m os log device kwargs :
  let m1 := st_model (prepare device kwargs (mkState m os log)).2 in
  graph m1 = graph m ∧
  ir_version m1 = ir_version m ∧
  opset_import m `prefix_of` opset_import m1 ∧
  (length (opset_import m1) ≤ S (length (opset_import m)))%nat.
Proof.
  cbn zeta.
  assert (Hw : graph (with_default_opset m) = graph m ∧
               ir_version (with_default_opset m) = ir_version m ∧
               opset_import m `prefix_of` opset_import (with_default_opset m)
               ∧ (length (opset_import (with_default_opset m))
                  ≤ S (length (opset_import m)))%nat).
  { unfold with_default_opset. case_bool_decide; simpl.
    - split; [done|]. split; [done|]. split; [by eexists|].
      rewrite length_app. simpl. lia.
    - split; [done|]. split; [done|]. split; [done|]. lia. }
  by_prepare_cases m os log device kwargs; try exact Hw.
  split; [done|]. split; [done|]. split; [done|]. lia.
Qed.

(** *** The command line entry point *)

(** [onnx.load_model(path)], and the reading of one tensor file (lines
    140-144: [open], [read], [ParseFromString], [numpy_helper.to_array]). *)
Variable load_model : string -> OS -> Result ModelProto * OS.
Variable load_tensor : string -> OS -> Result ndarray * OS.

(** The namespace that [argparse] builds (lines 161-168). *)
Record Args := mkArgs {
  args_onnx : list string;
  args_pb : list string;
  args_o : option string;
  args_p : bool
}.

(** Lines 137-144: the input tensors, in the order of the paths. *)
Fixpoint load_inputs (input_paths : list string) : M (list ndarray) :=
  match input_paths with
  | [] => ret []
  | input_path :: rest =>
      let* tensor := os_call (load_tensor input_path) in
      let* inputs := load_inputs rest in
      ret (tensor :: inputs)
  end.

(** Lines 131-157. The call of line 150 is [Backend.prepare(model, *kwargs)]:
    the keys of [kwargs] are passed as positional arguments, so that the key
    ['out'] becomes [device]. [BackendRep.run] returns the tuple of outputs;
    the value of [main] here is what lines 153-155 print, in order. *)
Definition main (args : Args) : M (list ndarray) :=
  match args_onnx args with
  | [] => raise (ExternalError "IndexError" "list index out of range")
  | onnx_path :: _ =>
      let input_paths := args_pb args in
      let output_dir := args_o args in
      let* model := os_call (load_model onnx_path) in
      put_model model >>
      let* inputs := load_inputs input_paths in
      let kwargs : gmap string string :=
        match output_dir with
        | Some d => {["out" := d]}
        | None => ∅
        end in
      let* backend :=
        match (map_to_list kwargs).*1 with
        | [] => prepare "CPU" ∅
        | [device] => prepare device ∅
        | _ => raise (TypeError "prepare() takes from 2 to 3 positional arguments")
        end in
      let* outputs := do_run backend inputs in
      ret outputs
  end.

Lemma load_inputs_log input_paths s r s' :
  load_inputs input_paths s = (r, s') →
  st_log s' = st_log s ∧ st_model s' = st_model s.
Proof.
  revert s r s'. induction input_paths as [|a rest IH]; intros s r s'.
  { by intros [= <- <-]. }
  simpl. unfold bind at 1, os_call.
  destruct (load_tensor a (st_os s)) as [[t|e] os1]; simpl;
    [|by intros [= <- <-]].
  unfold bind at 1.
  destruct (load_inputs rest _) as [[ts|e] s2] eqn:Hrest;
    apply IH in Hrest; simpl in *; by intros [= <- <-].
Qed.

(** X10. The output directory given on the command line has no effect:
    [main] behaves with [-o d] exactly as without it, it never asks
    [os.makedirs] for a directory, and the handle that it runs owns its
    directory, since [prepare] is called without [out]. *)
Theorem main_ignores_output_dir onnx pb d flag flag' s :
  main (mkArgs onnx pb (Some d) flag) s = main (mkArgs onnx pb None flag') s ∧
  makedirs_calls (st_log (main (mkArgs onnx pb (Some d) flag) s).2) =
    makedirs_calls (st_log s) ∧
  Forall (λ call, delete_path call.1 = true)
    (drop (length (run_calls (st_log s)))
       (run_calls (st_log (main (mkArgs onnx pb (Some d) flag) s).2))).
Proof.
  assert (Heq : main (mkArgs onnx pb (Some d) flag) s =
                main (mkArgs onnx pb None flag') s).
  { unfold main. simpl. by rewrite map_to_list_singleton, map_to_list_empty. }
  split; [done|]. rewrite Heq. clear Heq.
  destruct (main (mkArgs onnx pb None flag') s) as [r s'] eqn:Hmain.
  simpl. revert Hmain.
  unfold main. simpl. destruct onnx as [|onnx_path ?].
  { intros [= <- <-]. rewrite drop_all. by split. }
  unfold bind at 1, os_call.
  destruct (load_model onnx_path (st_os s)) as [[model|e] os1]; simpl;
    [|intros [= <- <-]; simpl; rewrite drop_all; by split].
  unfold bind at 1, put_model. simpl. unfold bind at 1.
  destruct (load_inputs pb _) as [[inputs|e] s2] eqn:Hload;
    apply load_inputs_log in Hload as (Hl & Hm2); simpl in *;
    [|intros [= <- <-]; rewrite Hl, drop_all; by split].
  rewrite map_to_list_empty. simpl. unfold bind at 1.
  destruct s2 as [m2 os2 log2]. simpl in *. subst m2 log2.
  pose proof (prepare_no_out_no_makedirs model os2 (st_log s) "CPU"
                ∅ eq_refl) as Hmk.
  pose proof (prepare_log_runs model os2 (st_log s) "CPU" ∅) as Hr.
  pose proof (prepare_owned_without_out model os2 (st_log s) "CPU"
                ∅ eq_refl) as Hown.
  destruct (prepare "CPU" ∅ _) as [[rep|e] s3]; simpl in *.
  - unfold bind, do_run, bind, emit, os_call. simpl.
    destruct (backend_run rep inputs (st_os s3)) as [[outputs|e] os4];
      simpl; intros [= <- <-]; simpl;
      rewrite makedirs_calls_app, run_calls_app, Hmk, Hr; simpl;
      rewrite app_nil_r, drop_app_length; (split; [done|]);
      apply Forall_singleton; simpl; by apply Hown.
  - intros [= <- <-]. rewrite Hmk, Hr, drop_all. by split.
Qed.
End Backend.

(** ** A concrete outside world

    One possible behaviour of the collaborators, small enough to run
    [prepare] and [run_node] on it: a POSIX host with a few files, a search
    path, a clock and a random generator given by their next readings. *)
Module Scenario.

Record world := mkWorld {
  files : list string;      (* executable regular files, as spelled *)
  on_path : list string;    (* commands found in a PATH directory *)
  dirs : list string;       (* directories created so far *)
  clock : list float;       (* next readings of time.time() *)
  fractions : list float;   (* next results of random.random() *)
  tmp : string              (* the temporary root; empty when none *)
}.

(** The checker, as far as IR version and opset imports go: the IR version
    must be set, a model of IR version 3 or later must import an opset, an
    older one must not. *)
Definition check_model (m : ModelProto) : Result unit :=
  if bool_decide (ir_version m = 0)
  then Raise (ExternalError "ValidationError"
                "The model does not have an ir_version set properly.")
  else if bool_decide (3 ≤ ir_version m ∧ opset_import m = [])
  then Raise (ExternalError "ValidationError"
                "model with IR version >= 3 must specify opset_import for ONNX")
  else if bool_decide (ir_version m < 3 ∧ opset_import m ≠ [])
  then Raise (ExternalError "ValidationError"
                "model with IR version < 3 cannot have opset_import specified")
  else Ok tt.

Definition which (cmd : string) (w : world) : option string :=
  if bool_decide (cmd ∈ files w) then Some cmd
  else if bool_decide (cmd ∈ on_path w) then Some ("/usr/bin/" +:+ cmd)
  else None.

(** [os.makedirs(p, exist_ok=True)] raises when [p] is a regular file. *)
Definition makedirs (p : string) (w : world) : Result unit * world :=
  if bool_decide (p ∈ files w)
  then (Raise (ExternalError "FileExistsError" p), w)
  else (Ok tt, mkWorld (files w) (on_path w) (dirs w ++ [p]) (clock w)
                 (fractions w) (tmp w)).

(** [tempfile.gettempdir()] finds the root [tmp], unless there is none. *)
Definition gettempdir (w : world) : Result string :=
  if bool_decide (tmp w = "")
  then Raise (ExternalError "FileNotFoundError"
                "No usable temporary directory found")
  else Ok (tmp w).

Definition time (w : world) : float * world :=
  match clock w with
  | t :: rest =>
      (t, mkWorld (files w) (on_path w) (dirs w) rest (fractions w) (tmp w))
  | [] => (0%float, w)
  end.

Definition random (w : world) : float * world :=
  match fractions w with
  | r :: rest =>
      (r, mkWorld (files w) (on_path w) (dirs w) (clock w) rest (tmp w))
  | [] => (0%float, w)
  end.

(** A text for a float: sign, integer mantissa and binary exponent. *)
Definition float_str (f : float) : string :=
  match Prim2SF f with
  | S754_zero s => if s then "-0.0" else "0.0"
  | S754_infinity s => if s then "-inf" else "inf"
  | S754_nan => "nan"
  | S754_finite s m e =>
      (if s then "-" else "") +:+ pretty (Z.pos m) +:+ "p" +:+ pretty e
  end.

(** The compiler writes its output into the directory, creating it. *)
Definition compile_from_model (m : ModelProto) (p : string) (w : world)
    : Result unit * world :=
  (Ok tt, mkWorld (files w) (on_path w) (dirs w ++ [p]) (clock w)
            (fractions w) (tmp w)).

Definition backend_run (rep : BackendRep) (inputs : list ndarray)
    (w : world) : Result (list ndarray) * world :=
  (Ok inputs, w).

Definition get_DataType (dt : string) : Result Z :=
  if bool_decide (dt = "float32") then Ok 1
  else if bool_decide (dt = "int64") then Ok 7
  else Raise (Exception "Not supported dtype").

Definition run_prepare :=
  prepare world check_model which makedirs gettempdir time random float_str
    compile_from_model.

(** A host with [connx] installed in a PATH directory, one with the runtime
    binary in the working directory, and one without a runtime. *)
Definition installed : world :=
  mkWorld [] ["connx"] []
    [1700000000.0%float; 1700000000.25%float] [0.5%float; 0.25%float]
    "/tmp".
Definition local_binary : world :=
  mkWorld ["./connx"] [] [] [1700000000.0%float] [0.5%float] "/tmp".
Definition bare : world :=
  mkWorld [] [] [] [1700000000.0%float] [0.5%float] "/tmp".

Definition relu : NodeProto := mkNode "relu0" "Relu" ["x"] ["y"].
Definition add : NodeProto := mkNode "add0" "Add" ["a"; "b"] ["sum"].

(** A model of IR version 7 with its opset import; a model of IR version
    2, which carries no opset import; a model of IR version 7 that lacks its
    opset import; a model whose IR version is not set. *)
Definition valid_model : ModelProto :=
  mkModel 7 [mkOpset "" 13]
    (mkGraph "g" [relu] [mkValueInfo "x" FLOAT [2]]
       [mkValueInfo "y" FLOAT [2]]).
Definition old_model : ModelProto :=
  mkModel 2 []
    (mkGraph "g" [relu] [mkValueInfo "x" FLOAT [2]]
       [mkValueInfo "y" FLOAT [2]]).
Definition modern_model : ModelProto :=
  mkModel 7 []
    (mkGraph "g" [relu] [mkValueInfo "x" FLOAT [2]]
       [mkValueInfo "y" FLOAT [2]]).
Definition unversioned_model : ModelProto :=
  mkModel 0 [] (mkGraph "g" [relu] [] []).

(** Two calls of [prepare], one right after the other, on the same model
    and without [out]: the clock reads 1700000000.0 and then 1700000000.25,
    the generator gives 0.5 and then 0.25. *)
Definition first_call : Result BackendRep * State world :=
  run_prepare "CPU" ∅ (mkState valid_model installed []).
Definition second_call : Result BackendRep * State world :=
  run_prepare "CPU" ∅
    (mkState (st_model first_call.2) (st_os first_call.2) []).

(** A later host, for two calls that are a second apart. *)
Definition later : world :=
  mkWorld [] ["connx"] [] [1700000001.0%float] [0.5%float] "/tmp".

Definition arrays : list ndarray :=
  [mkArray "float32" [2; 3] [0; 0; 128; 63];
   mkArray "int64" [3] [1; 2; 3]].

Lemma connx_candidate : "connx" ∈ _CONNX_PATHS.
Proof. apply list_elem_of_further, list_elem_of_further, list_elem_of_here. Qed.

Lemma installed_names_temp_dir (w : world) :
  files w = [] → on_path w = ["connx"] → tmp w = "/tmp" →
  names_temp_dir world check_model which gettempdir old_model w ∅.
Proof.
  intros Hf Hp Ht. split; [reflexivity|]. split; [|split; [reflexivity|]].
  - exists "connx". split; [exact connx_candidate|].
    unfold which. rewrite Hf, Hp. by eexists.
  - exists "/tmp". unfold gettempdir. by rewrite Ht.
Qed.

(** C2, the claim as stated fails: the model of IR version 7 has no opset
    import, the checker rejects it, and [prepare] raises and leaves the
    model without opset import. *)
Lemma rejected_model_gets_no_opset :
  opset_import modern_model = [] ∧
  (run_prepare "CPU" ∅ (mkState modern_model installed [])).1 =
    Raise (ExternalError "ValidationError"
             "model with IR version >= 3 must specify opset_import for ONNX") ∧
  opset_import
    (st_model (run_prepare "CPU" ∅ (mkState modern_model installed [])).2)
    = [].
Proof. repeat split; reflexivity. Qed.

Lemma prepare_injects_default_opset_witness :
  check_model old_model = Ok tt ∧
  opset_import old_model = [] ∧
  (let s' := (run_prepare "CPU" ∅ (mkState old_model installed [])).2 in
   let m1 := mkModel 2 [mkOpset "" 1] (graph old_model) in
   st_model s' = m1 ∧
   Forall (λ call, call.1 = m1) (compile_calls (st_log s'))).
Proof.
  split; [reflexivity|]. split; [reflexivity|].
  unfold run_prepare. apply prepare_injects_default_opset; reflexivity.
Defined.

(** C3. With [out] given, [prepare] asks [os.makedirs] for the runtime
    candidate it has just found, not for [out]. On a host with the runtime
    binary in the working directory the call raises [FileExistsError] and
    the compiler is not called; on a host with [connx] on the search path a
    directory [connx] appears in the working directory, and [out] exists
    afterwards only because the compiler made it. *)
Theorem prepare_out_makedirs_runtime_candidate :
  (let '(r, s') :=
     run_prepare "CPU" {["out" := "/tmp/out"]}
       (mkState valid_model local_binary []) in
   r = Raise (ExternalError "FileExistsError" "./connx") ∧
   makedirs_calls (st_log s') = ["./connx"] ∧
   compile_calls (st_log s') = [] ∧
   dirs (st_os s') = []) ∧
  (let '(r, s') :=
     run_prepare "CPU" {["out" := "/tmp/out"]}
       (mkState valid_model installed []) in
   r = Ok (mkBackendRep "connx" "/tmp/out" false) ∧
   makedirs_calls (st_log s') = ["connx"] ∧
   snd <$> compile_calls (st_log s') = ["/tmp/out"] ∧
   dirs (st_os s') = ["connx"; "/tmp/out"]).
Proof. vm_compute. repeat split. Qed.

Lemma prepare_runtime_not_found_witness :
  (∀ q, q ∈ _CONNX_PATHS → which q bare = None) ∧
  ∃ e s', run_prepare "CPU" ∅ (mkState old_model bare []) = (Raise e, s') ∧
    st_os s' = bare ∧
    makedirs_calls (st_log s') = [] ∧
    compile_calls (st_log s') = [] ∧
    (check_model old_model = Ok tt → e = UnboundLocalError "connx_path").
Proof.
  assert (H : ∀ q, q ∈ _CONNX_PATHS → which q bare = None)
    by (intros q Hq; reflexivity).
  split; [exact H|].
  unfold run_prepare. apply prepare_runtime_not_found. exact H.
Defined.

Lemma prepare_invalid_model_witness :
  let e := ExternalError "ValidationError"
             "The model does not have an ir_version set properly." in
  check_model unversioned_model = Raise e ∧
  run_prepare "CPU" ∅ (mkState unversioned_model installed []) =
    (Raise e, mkState unversioned_model installed
                [EvCheckModel unversioned_model]).
Proof.
  split; [reflexivity|].
  unfold run_prepare. apply prepare_invalid_model. reflexivity.
Defined.

(** C7, the claim as stated fails: the two calls [first_call] and
    [second_call] both succeed and return the same temporary directory,
    since 1700000000.0 + 0.5 = 1700000000.25 + 0.25. *)
Lemma temp_dirs_collide :
  ∃ rep1 rep2,
    first_call.1 = Ok rep1 ∧ second_call.1 = Ok rep2 ∧
    delete_path rep1 = true ∧ delete_path rep2 = true ∧
    model_path rep1 = model_path rep2.
Proof. vm_compute. eexists _, _. repeat split. Qed.

Lemma temp_dirs_distinct_iff_witness :
  names_temp_dir world check_model which gettempdir old_model installed ∅ ∧
  names_temp_dir world check_model which gettempdir old_model later ∅ ∧
  gettempdir installed = gettempdir later ∧
  ∃ dir1 dir2,
    compile_calls
      (st_log (run_prepare "CPU" ∅ (mkState old_model installed [])).2)
      = [(with_default_opset old_model, dir1)] ∧
    compile_calls
      (st_log (run_prepare "CPU" ∅ (mkState old_model later [])).2)
      = [(with_default_opset old_model, dir2)] ∧
    (dir1 ≠ dir2 ↔
     float_str (temp_stamp world time random installed) ≠
     float_str (temp_stamp world time random later)) ∧
    (temp_stamp world time random installed =
     temp_stamp world time random later → dir1 = dir2).
Proof.
  assert (H1 := installed_names_temp_dir installed eq_refl eq_refl eq_refl).
  assert (H2 := installed_names_temp_dir later eq_refl eq_refl eq_refl).
  split; [exact H1|]. split; [exact H2|]. split; [reflexivity|].
  unfold run_prepare. by apply temp_dirs_distinct_iff.
Defined.

Lemma runtime_first_match_wins_witness :
  _CONNX_PATHS = ["onnx_connx/connx"; "./connx"] ++ "connx" :: [] ∧
  (∀ q, q ∈ ["onnx_connx/connx"; "./connx"] → which q installed = None) ∧
  is_Some (which "connx" installed) ∧
  find_connx world which _CONNX_PATHS no_locals
      (mkState old_model installed []) =
    (Ok (mkLocals (Some "connx") (Some (Some "connx"))),
     mkState old_model installed
       (EvWhich <$> ["onnx_connx/connx"; "./connx"] ++ ["connx"])) ∧
  (check_model old_model = Ok tt →
   let '(r, s') := run_prepare "CPU" ∅ (mkState old_model installed []) in
   which_calls (st_log s') = ["onnx_connx/connx"; "./connx"] ++ ["connx"] ∧
   ∀ rep, r = Ok rep → connx_path rep = "connx").
Proof.
  assert (Hpre : ∀ q, q ∈ ["onnx_connx/connx"; "./connx"] →
                   which q installed = None).
  { intros q Hq. apply elem_of_cons in Hq as [->|Hq]; [reflexivity|].
    apply elem_of_cons in Hq as [->|Hq]; [reflexivity|].
    by apply elem_of_nil in Hq. }
  assert (Hp : is_Some (which "connx" installed)) by (by eexists).
  split; [reflexivity|]. split; [exact Hpre|]. split; [exact Hp|].
  unfold run_prepare.
  exact (runtime_first_match_wins world check_model which makedirs
           gettempdir time random float_str compile_from_model old_model
           installed "CPU" ∅
           ["onnx_connx/connx"; "./connx"] "connx" [] eq_refl Hpre Hp).
Defined.

Lemma run_node_model_spec_witness :
  length (node_input add) = length arrays ∧
  match node_model get_DataType 8 15 add arrays with
  | Ok model =>
      node (graph model) = [add] ∧
      opset_import model = [mkOpset "" 15] ∧
      length (input (graph model)) = length arrays ∧
      (∀ i x name,
         arrays !! i = Some x → node_input add !! i = Some name →
         ∃ elem_type, get_DataType (dtype x) = Ok elem_type ∧
           input (graph model) !! i =
             Some (mkValueInfo name elem_type (shape x))) ∧
      length (output (graph model)) = length (node_output add) ∧
      (∀ i name, node_output add !! i = Some name →
         output (graph model) !! i = Some (mkValueInfo name FLOAT [0])) ∧
      (∀ device outputs_info s,
         run_node world check_model which makedirs gettempdir time random
           float_str compile_from_model backend_run get_DataType 8 15
           add arrays device outputs_info ∅ s =
         run_model world check_model which makedirs gettempdir time random
           float_str compile_from_model backend_run arrays device ∅
           (mkState model (st_os s) (st_log s)))
  | Raise e => ∃ x, x ∈ arrays ∧ get_DataType (dtype x) = Raise e
  end.
Proof.
  split; [reflexivity|].
  apply (run_node_model_spec world check_model which makedirs gettempdir
           time random float_str compile_from_model backend_run
           get_DataType 8 15 add arrays).
  reflexivity.
Defined.

(** The model that [run_node] builds for [add] and the two arrays. *)
Example add_node_model :
  node_model get_DataType 8 15 add arrays =
    Ok (mkModel 8 [mkOpset "" 15]
          (mkGraph "add0 test (auto generated by connx backend)" [add]
             [mkValueInfo "a" 1 [2; 3]; mkValueInfo "b" 7 [3]]
             [mkValueInfo "sum" 1 [0]])).
Proof. reflexivity. Qed.

(** *** Instances for the further properties *)

(** A support table: [Relu] and [Add] are implemented, [Loop] is listed
    without implementation. *)
Definition get_attrset (specs : list (string * Z))
    : gmap string (option unit) * Z :=
  ({["Relu" := Some tt; "Add" := Some tt; "Loop" := None]}, 13).

Definition two_node_model : ModelProto :=
  mkModel 7 [mkOpset "" 13] (mkGraph "g" [relu; add] [] []).
Definition repeated_model : ModelProto :=
  mkModel 7 [mkOpset "" 13] (mkGraph "h" [add; add; relu] [] []).

Lemma is_compatible_subgraph_witness :
  opset_import repeated_model = opset_import two_node_model ∧
  is_compatible unit get_attrset two_node_model "CPU" ∅ = true ∧
  is_compatible unit get_attrset repeated_model "cpu" {["out" := "d"]}
    = true.
Proof.
  split; [reflexivity|]. split; [reflexivity|].
  apply (is_compatible_subgraph unit get_attrset two_node_model
           repeated_model "CPU" ∅); [reflexivity| |reflexivity].
  intros n' Hn'. unfold repeated_model in Hn'. simpl in Hn'.
  apply elem_of_cons in Hn' as [->|Hn'].
  { exists add. split; [|reflexivity].
    apply list_elem_of_further, list_elem_of_here. }
  apply elem_of_cons in Hn' as [->|Hn'].
  { exists add. split; [|reflexivity].
    apply list_elem_of_further, list_elem_of_here. }
  apply elem_of_cons in Hn' as [->|Hn'].
  { exists relu. split; [|reflexivity]. apply list_elem_of_here. }
  by apply elem_of_nil in Hn'.
Defined.

Lemma prepare_keeps_declared_opsets_witness :
  opset_import valid_model ≠ [] ∧
  st_model
    (run_prepare "CPU" {["out" := "/tmp/out"]}
       (mkState valid_model local_binary [])).2 = valid_model.
Proof.
  assert (H : opset_import valid_model ≠ []) by done.
  split; [exact H|].
  unfold run_prepare. by apply prepare_keeps_declared_opsets.
Defined.

Lemma prepare_raise_origin_witness :
  let e := ExternalError "FileExistsError" "./connx" in
  let kwargs : gmap string string := {["out" := "/tmp/out"]} in
  ∃ s',
    run_prepare "CPU" kwargs (mkState valid_model local_binary [])
      = (Raise e, s') ∧
    (check_model valid_model = Raise e ∨
     check_model valid_model = Ok tt ∧
     ((e = UnboundLocalError "connx_path" ∧
       ∀ q, q ∈ _CONNX_PATHS → which q local_binary = None) ∨
      ∃ pre p post,
        first_match world which local_binary _CONNX_PATHS pre p post ∧
        match kwargs !! "out" with
        | Some out =>
            (makedirs p local_binary).1 = Raise e ∨
            ∃ os1, makedirs p local_binary = (Ok tt, os1) ∧
              (compile_from_model (with_default_opset valid_model) out
                 os1).1 = Raise e
        | None =>
            gettempdir local_binary = Raise e ∨
            ∃ tmp, gettempdir local_binary = Ok tmp ∧
              (compile_from_model (with_default_opset valid_model)
                 (temp_model_path world time random float_str tmp
                    local_binary)
                 (after_clock world time random local_binary)).1 = Raise e
        end)).
Proof.
  cbn zeta.
  exists (run_prepare "CPU" {["out" := "/tmp/out"]}
            (mkState valid_model local_binary [])).2.
  assert (H : run_prepare "CPU" {["out" := "/tmp/out"]}
                (mkState valid_model local_binary []) =
              (Raise (ExternalError "FileExistsError" "./connx"),
               (run_prepare "CPU" {["out" := "/tmp/out"]}
                  (mkState valid_model local_binary [])).2))
    by (vm_compute; reflexivity).
  split; [exact H|].
  exact (prepare_raise_origin world check_model which makedirs gettempdir
           time random float_str compile_from_model valid_model
           local_binary [] "CPU" {["out" := "/tmp/out"]} _ _ H).
Defined.

Lemma prepare_returns_handle_witness :
  let rep := mkBackendRep "connx" "/tmp/out" false in
  let kwargs : gmap string string := {["out" := "/tmp/out"]} in
  ∃ s',
    run_prepare "CPU" kwargs (mkState valid_model installed [])
      = (Ok rep, s') ∧
    check_model valid_model = Ok tt ∧
    (∃ pre post,
       first_match world which installed _CONNX_PATHS pre
         (connx_path rep) post) ∧
    match kwargs !! "out" with
    | Some out => model_path rep = out
    | None =>
        ∃ tmp, gettempdir installed = Ok tmp ∧
          model_path rep =
            temp_model_path world time random float_str tmp installed
    end ∧
    delete_path rep = bool_decide (kwargs !! "out" = None) ∧
    st_model s' = with_default_opset valid_model ∧
    compile_calls (st_log s') =
      [(with_default_opset valid_model, model_path rep)].
Proof.
  cbn zeta.
  exists (run_prepare "CPU" {["out" := "/tmp/out"]}
            (mkState valid_model installed [])).2.
  assert (H : run_prepare "CPU" {["out" := "/tmp/out"]}
                (mkState valid_model installed []) =
              (Ok (mkBackendRep "connx" "/tmp/out" false),
               (run_prepare "CPU" {["out" := "/tmp/out"]}
                  (mkState valid_model installed [])).2))
    by (vm_compute; reflexivity).
  split; [exact H|].
  exact (prepare_returns_handle world check_model which makedirs gettempdir
           time random float_str compile_from_model valid_model installed
           "CPU" {["out" := "/tmp/out"]} _ _ H).
Defined.

Definition run_the_node :=
  run_node world check_model which makedirs gettempdir time random float_str
    compile_from_model backend_run get_DataType 8 15.


(** The model built for [add], by [add_node_model]. *)
Definition add_model : ModelProto :=
  mkModel 8 [mkOpset "" 15]
    (mkGraph "add0 test (auto generated by connx backend)" [add]
       [mkValueInfo "a" 1 [2; 3]; mkValueInfo "b" 7 [3]]
       [mkValueInfo "sum" 1 [0]]).

Lemma run_node_pipeline_witness :
  node_model get_DataType 8 15 add arrays = Ok add_model ∧
  let '(r, s') :=
    run_the_node add arrays "CPU" None ∅ (mkState valid_model installed [])
  in
  (∃ rest, st_log s' = EvCheckModel add_model :: rest) ∧
  makedirs_calls (st_log s') = [] ∧
  Forall (λ call, call.1 = add_model) (compile_calls (st_log s')) ∧
  st_model s' = add_model ∧
  (run_calls (st_log s') = [] ∨
   ∃ rep, run_calls (st_log s') = [(rep, arrays)] ∧
     delete_path rep = true ∧
     ∃ tmp, gettempdir installed = Ok tmp ∧
       model_path rep =
         temp_model_path world time random float_str tmp installed) ∧
  (∀ outputs, r = Ok outputs → run_calls (st_log s') ≠ []).
Proof.
  split; [reflexivity|].
  unfold run_the_node.
  exact (run_node_pipeline world check_model which makedirs gettempdir time random
           float_str compile_from_model backend_run get_DataType 8 15 add
           arrays "CPU" None installed add_model eq_refl valid_model).
Defined.

End Scenario.
